(** * xpath.renderer: rendering an XPath [Expression] tree to query text

    A shallow embedding of [xpath/renderer.py] (class [Renderer] and
    [to_xpath]) together with the two bindings of [xpath/dsl.py] that do
    not depend on the combinator methods.

    Modelling conventions.
    - A Python [str] is a Rocq [string]; a character is a code point in
      the range 0..255.
    - A Python exception is a value of [Error]; a method that may raise
      returns a [Result].
    - The methods of [Renderer] receive [self]; they are computations in
      the monad [M], which threads the renderer object and propagates
      exceptions.
    - The interpreter's recursion limit is not modelled. *)

From Stdlib Require Import String Ascii List Bool Arith Lia.
Import ListNotations.
Local Open Scope list_scope.
Local Open Scope string_scope.

(* ------------------------------------------------------------------ *)
(** ** Data model *)

(** Modelled from the spec: the enumeration [ExpressionKind] is declared in
    [xpath/expression.py], which is not part of the sources at hand.  The
    first sixteen members are the keys of [Renderer._RENDER_METHOD_NAMES];
    [OTHER_KIND] stands for any further member of the enumeration (the
    combinators [starts_with], [string_length], [substring], [name] and
    [text] bound in [xpath/dsl.py] build nodes the renderer's table does
    not list). *)
Inductive ExpressionKind : Type :=
| ANYWHERE
| ATTR
| CHILD
| CONTAINS
| DESCENDANT
| EQUALITY
| INVERSE
| IS
| NORMALIZED_SPACE
| ONE_OF
| OR
| PREVIOUS_SIBLING
| STRING
| THIS_NODE
| UNION
| WHERE
| OTHER_KIND (name : string).

Definition ExpressionKind_eq_dec (a b : ExpressionKind) : {a = b} + {a <> b}.
Proof. decide equality. apply string_dec. Defined.

(** Modelled from the spec: [Expression] ([xpath/expression.py]) and
    [Literal] ([xpath/literal.py]) are read by the renderer through
    [node.kind], [node.arguments] and [argument.value] only.  An argument
    is a nested expression, a list of arguments, a plain [str], a
    [Literal] wrapping a [str], or an object of any other type
    ([ArgOther]), which [_convert_argument] does not inspect. *)
#[warnings="-register-all"]
Inductive Expression : Type :=
| Expr (kind : ExpressionKind) (arguments : list Argument)
with Argument : Type :=
| ArgExpression (e : Expression)
| ArgList (elements : list Argument)
| ArgStr (s : string)
| ArgLiteral (value : string)
| ArgOther.

Definition kind (node : Expression) : ExpressionKind :=
  match node with Expr k _ => k end.

Definition arguments (node : Expression) : list Argument :=
  match node with Expr _ args => args end.

(** What an argument is once [_convert_argument] has resolved it: text, a
    list of resolved values, or [None]. *)
#[warnings="-register-all"]
Inductive Value : Type :=
| VStr (s : string)
| VList (elements : list Value)
| VNone.

(** The renderer object: its only attribute is the mode flag. *)
Record Renderer : Type := mkRenderer { exact : bool }.

(* ------------------------------------------------------------------ *)
(** ** Exceptions and the method monad *)

Inductive Error : Type :=
| KeyError (k : ExpressionKind)
| AttributeError (name : string)
| IndexError
| TypeError.

Inductive Result (A : Type) : Type :=
| Ok (a : A)
| Raise (e : Error).
Arguments Ok {A} a.
Arguments Raise {A} e.

Definition M (A : Type) : Type := Renderer -> Result A * Renderer.

Definition ret {A} (a : A) : M A := fun self => (Ok a, self).

Definition raise {A} (e : Error) : M A := fun self => (Raise e, self).

Definition bind {A B} (m : M A) (f : A -> M B) : M B :=
  fun self =>
    match m self with
    | (Ok a, self') => f a self'
    | (Raise e, self') => (Raise e, self')
    end.

Definition lift {A} (r : Result A) : M A := fun self => (r, self).

Definition self_exact : M bool := fun self => (Ok (exact self), self).

Declare Scope method_scope.
Delimit Scope method_scope with method.
Notation "x <- m ;; k" := (bind m (fun x => k))
  (at level 61, m at next level, right associativity) : method_scope.
Local Open Scope method_scope.

(** A list comprehension whose body may raise: elements are evaluated left
    to right and the first exception ends the loop. *)
Definition mapM {A B} (f : A -> M B) : list A -> M (list B) :=
  fix go (l : list A) : M (list B) :=
    match l with
    | [] => ret []
    | a :: l' => b <- f a ;; bs <- go l' ;; ret (b :: bs)
    end.

(* ------------------------------------------------------------------ *)
(** ** Built-ins used by the templates *)

Definition hex_digit (n : nat) : ascii :=
  match n with
  | 0 => "0" | 1 => "1" | 2 => "2" | 3 => "3" | 4 => "4" | 5 => "5"
  | 6 => "6" | 7 => "7" | 8 => "8" | 9 => "9" | 10 => "a" | 11 => "b"
  | 12 => "c" | 13 => "d" | 14 => "e" | _ => "f"
  end%char.

Definition contains_char (c : ascii) (s : string) : bool :=
  existsb (Ascii.eqb c) (list_ascii_of_string s).

(** The double quote character, code point 34. *)
Definition double_quote : ascii := ascii_of_nat 34.

(** [repr] of a character inside a [str] literal delimited by [quote]. *)
Definition repr_char (quote c : ascii) : string :=
  let n := nat_of_ascii c in
  if Ascii.eqb c quote || Ascii.eqb c "\"%char then String "\" (String c "")
  else if (n =? 9)%nat then "\t"
  else if (n =? 10)%nat then "\n"
  else if (n =? 13)%nat then "\r"
  else if (n <? 32)%nat || (n =? 127)%nat
          || ((127 <? n)%nat && (n <? 161)%nat) || (n =? 173)%nat
  then String "\" (String "x" (String (hex_digit (n / 16))
                                      (String (hex_digit (n mod 16)) "")))
  else String c "".

(** [repr] of a [str]: single quotes, unless the text holds a single quote
    and no double quote. *)
Definition repr_str (s : string) : string :=
  let quote :=
    if contains_char "'" s && negb (contains_char double_quote s)
    then double_quote else "'"%char in
  String quote
    (String.concat "" (map (repr_char quote) (list_ascii_of_string s))
     ++ String quote "").

Fixpoint repr (v : Value) : string :=
  match v with
  | VStr s => repr_str s
  | VList l => "[" ++ String.concat ", " (map repr l) ++ "]"
  | VNone => "None"
  end.

(** ["{0}".format(v)]: a [str] is inserted as it is, any other object
    through its [str()]. *)
Definition format (v : Value) : string :=
  match v with
  | VStr s => s
  | VList _ => repr v
  | VNone => "None"
  end.

(** [len(v)] *)
Definition len (v : Value) : Result nat :=
  match v with
  | VStr s => Ok (String.length s)
  | VList l => Ok (List.length l)
  | VNone => Raise TypeError
  end.

(** The items [for e in v] runs over; a [str] yields its characters. *)
Definition iter (v : Value) : Result (list Value) :=
  match v with
  | VStr s => Ok (map (fun c => VStr (String c "")) (list_ascii_of_string s))
  | VList l => Ok l
  | VNone => Raise TypeError
  end.

(** [v[0]] *)
Definition getitem0 (v : Value) : Result Value :=
  match v with
  | VStr (String c _) => Ok (VStr (String c ""))
  | VList (e :: _) => Ok e
  | VStr "" | VList [] => Raise IndexError
  | VNone => Raise TypeError
  end.

(** [sep.join(items)]: every item has to be a [str]. *)
Fixpoint all_str (items : list Value) : Result (list string) :=
  match items with
  | [] => Ok []
  | VStr s :: rest =>
      match all_str rest with
      | Ok ss => Ok (s :: ss)
      | Raise e => Raise e
      end
  | _ :: _ => Raise TypeError
  end.

Definition join (sep : string) (items : list Value) : Result string :=
  match all_str items with
  | Ok ss => Ok (String.concat sep ss)
  | Raise e => Raise e
  end.

(* ------------------------------------------------------------------ *)
(** ** The templates of [Renderer] *)

Definition _anywhere (node : Value) : M string :=
  ret ("//" ++ format node).

Definition _attribute (node attribute_name : Value) : M string :=
  ret (format node ++ "/@" ++ format attribute_name).

Definition _child (parent element_name : Value) : M string :=
  ret (format parent ++ "/" ++ format element_name).

Definition _contains (expr value : Value) : M string :=
  ret ("contains(" ++ format expr ++ ", " ++ format value ++ ")").

Definition _descendant (parent element_names : Value) : M string :=
  n <- lift (len element_names) ;;
  if (n =? 1)%nat then
    e0 <- lift (getitem0 element_names) ;;
    ret (format parent ++ "//" ++ format e0)
  else if (1 <? n)%nat then
    es <- lift (iter element_names) ;;
    let element_names_xpath :=
      String.concat " | " (map (fun e => "self::" ++ format e) es) in
    ret (format parent ++ "//*[" ++ element_names_xpath ++ "]")
  else
    ret (format parent ++ "//*").

Definition _equality (expr1 expr2 : Value) : M string :=
  ret (format expr1 ++ " = " ++ format expr2).

Definition _inverse (expr : Value) : M string :=
  ret ("not(" ++ format expr ++ ")").

Definition _is (expr1 expr2 : Value) : M string :=
  e <- self_exact ;;
  if e then _equality expr1 expr2 else _contains expr1 expr2.

Definition _normalized_space (expr : Value) : M string :=
  ret ("normalize-space(" ++ format expr ++ ")").

Definition _one_of (expr : Value) (values : list Value) : M string :=
  ret (String.concat " or "
         (map (fun value => format expr ++ " = " ++ format value) values)).

Definition _or (exprs : list Value) : M string :=
  s <- lift (join " or " exprs) ;;
  ret ("(" ++ s ++ ")").

Definition _previous_sibling (node element_name : Value) : M string :=
  ret (format node ++ "/preceding-sibling::*[1]/self::" ++ format element_name).

Definition _string_function (expr : Value) : M string :=
  ret ("string(" ++ format expr ++ ")").

Definition _string_literal (string : String.string) : M String.string :=
  ret ("'" ++ string ++ "'").

Definition _this_node : M string :=
  ret ".".

Definition _union (exprs : list Value) : M string :=
  lift (join " | " exprs).

Definition _where (expr : Value) (predicate_exprs : list Value) : M string :=
  let predicates :=
    map (fun predicate_expr => "[" ++ format predicate_expr ++ "]")
        predicate_exprs in
  ret (format expr ++ String.concat "" predicates).

(* ------------------------------------------------------------------ *)
(** ** Dispatch *)

(** A bound method called as [method( *args )]: the positional arguments
    are matched against the signature, and a mismatch raises [TypeError]. *)
Definition Method : Type := list Value -> M string.

Definition call0 (f : M string) : Method :=
  fun args => match args with [] => f | _ => raise TypeError end.

Definition call1 (f : Value -> M string) : Method :=
  fun args => match args with [a] => f a | _ => raise TypeError end.

Definition call2 (f : Value -> Value -> M string) : Method :=
  fun args => match args with [a; b] => f a b | _ => raise TypeError end.

Definition call1_star (f : Value -> list Value -> M string) : Method :=
  fun args => match args with a :: rest => f a rest | [] => raise TypeError end.

Definition call_star (f : list Value -> M string) : Method := f.

Definition _RENDER_METHOD_NAMES : list (ExpressionKind * string) :=
  [ (ANYWHERE, "_anywhere");
    (ATTR, "_attribute");
    (CHILD, "_child");
    (CONTAINS, "_contains");
    (DESCENDANT, "_descendant");
    (EQUALITY, "_equality");
    (INVERSE, "_inverse");
    (IS, "_is");
    (NORMALIZED_SPACE, "_normalized_space");
    (ONE_OF, "_one_of");
    (OR, "_or");
    (PREVIOUS_SIBLING, "_previous_sibling");
    (STRING, "_string_function");
    (THIS_NODE, "_this_node");
    (UNION, "_union");
    (WHERE, "_where") ].

(** [d[k]] on a dict given by its items. *)
Fixpoint dict_getitem (d : list (ExpressionKind * string)) (k : ExpressionKind)
  : Result string :=
  match d with
  | [] => Raise (KeyError k)
  | (k', v) :: d' =>
      if ExpressionKind_eq_dec k k' then Ok v else dict_getitem d' k
  end.

(** [getattr(self, name)] for the templates of the class. *)
Definition getattr (name : string) : Result Method :=
  if name =? "_anywhere" then Ok (call1 _anywhere)
  else if name =? "_attribute" then Ok (call2 _attribute)
  else if name =? "_child" then Ok (call2 _child)
  else if name =? "_contains" then Ok (call2 _contains)
  else if name =? "_descendant" then Ok (call2 _descendant)
  else if name =? "_equality" then Ok (call2 _equality)
  else if name =? "_inverse" then Ok (call1 _inverse)
  else if name =? "_is" then Ok (call2 _is)
  else if name =? "_normalized_space" then Ok (call1 _normalized_space)
  else if name =? "_one_of" then Ok (call1_star _one_of)
  else if name =? "_or" then Ok (call_star _or)
  else if name =? "_previous_sibling" then Ok (call2 _previous_sibling)
  else if name =? "_string_function" then Ok (call1 _string_function)
  else if name =? "_this_node" then Ok (call0 _this_node)
  else if name =? "_union" then Ok (call_star _union)
  else if name =? "_where" then Ok (call1_star _where)
  else Raise (AttributeError name).

Fixpoint render (node : Expression) : M string :=
  match node with
  | Expr kind arguments =>
      args <- mapM _convert_argument arguments ;;
      render_method_name <- lift (dict_getitem _RENDER_METHOD_NAMES kind) ;;
      render_method <- lift (getattr render_method_name) ;;
      render_method args
  end
with _convert_argument (argument : Argument) : M Value :=
  match argument with
  | ArgExpression e => s <- render e ;; ret (VStr s)
  | ArgList elements =>
      l <- mapM _convert_argument elements ;; ret (VList l)
  | ArgStr s => q <- _string_literal s ;; ret (VStr q)
  | ArgLiteral value => ret (VStr value)
  | ArgOther => ret VNone
  end.

(** [to_xpath(node, exact)]: a fresh renderer renders the node. *)
Definition to_xpath (node : Expression) (exact : bool) : Result string :=
  fst (render node (mkRenderer exact)).

(** [xpath/dsl.py] *)
Definition current : Expression := Expr THIS_NODE [].

Definition anywhere (element_name : string) : Expression :=
  Expr ANYWHERE [ArgLiteral element_name].

(* ------------------------------------------------------------------ *)
(** ** The union operator *)

(** Modelled from the spec: the union operator [Expression.__add__] of
    [xpath/expression.py] is not part of the sources at hand.  Following
    the spec, an operand that is already a UNION contributes its own
    operands, any other operand contributes itself, and the result is one
    UNION node. *)
Definition union_operands (e : Expression) : list Argument :=
  match e with
  | Expr UNION args => args
  | _ => [ArgExpression e]
  end.

(** Modelled from the spec: [a + b], one UNION node over the operands of
    both sides. *)
Definition union (a b : Expression) : Expression :=
  Expr UNION (union_operands a ++ union_operands b)%list.

(* ------------------------------------------------------------------ *)
(** ** Vocabulary of the statements *)

(** A computation that hands back the renderer it was given. *)
Definition preserves_self {A} (m : M A) : Prop :=
  forall self, snd (m self) = self.

(** A result that is an exception. *)
Definition raises {A} (r : Result A) : Prop :=
  match r with
  | Raise _ => True
  | Ok _ => False
  end.

(** What [_convert_argument] returns on a renderer created with the given
    mode, for one argument and for an argument list. *)
Definition resolve (argument : Argument) (exact : bool) : Result Value :=
  fst (_convert_argument argument (mkRenderer exact)).

Definition resolve_all (args : list Argument) (exact : bool)
  : Result (list Value) :=
  fst (mapM _convert_argument args (mkRenderer exact)).

(** The call [render_method( *args )] for a node of the given kind. *)
Definition dispatch (kind : ExpressionKind) (args : list Value) : M string :=
  render_method_name <- lift (dict_getitem _RENDER_METHOD_NAMES kind) ;;
  render_method <- lift (getattr render_method_name) ;;
  render_method args.

(** Occurrence of [needle] inside [text]. *)
Definition occurs_in (needle text : string) : Prop :=
  exists before after, text = before ++ needle ++ after.

(** Whether a node of kind [IS] occurs in a tree. *)
Fixpoint mentions_IS (node : Expression) : bool :=
  match node with
  | Expr k args =>
      (if ExpressionKind_eq_dec k IS then true else false)
      || existsb mentions_IS_arg args
  end
with mentions_IS_arg (argument : Argument) : bool :=
  match argument with
  | ArgExpression e => mentions_IS e
  | ArgList l => existsb mentions_IS_arg l
  | _ => false
  end.

(** The argument types [_convert_argument] has a case for. *)
Fixpoint supported (argument : Argument) : bool :=
  match argument with
  | ArgExpression _ | ArgStr _ | ArgLiteral _ => true
  | ArgList l => forallb supported l
  | ArgOther => false
  end.

(** The numbers of positional arguments the signature of a kind's
    template accepts. *)
Definition signature_accepts (k : ExpressionKind) (n : nat) : bool :=
  match k with
  | THIS_NODE => (n =? 0)%nat
  | ANYWHERE | INVERSE | NORMALIZED_SPACE | STRING => (n =? 1)%nat
  | ATTR | CHILD | CONTAINS | DESCENDANT | EQUALITY | IS | PREVIOUS_SIBLING =>
      (n =? 2)%nat
  | ONE_OF | WHERE => (1 <=? n)%nat
  | OR | UNION => true
  | OTHER_KIND _ => false
  end.

(** Arguments that resolve to text whenever they resolve. *)
Definition is_text (argument : Argument) : bool :=
  match argument with
  | ArgExpression _ | ArgStr _ | ArgLiteral _ => true
  | ArgList _ | ArgOther => false
  end.

Definition is_VStr (v : Value) : bool :=
  match v with
  | VStr _ => true
  | VList _ | VNone => false
  end.

(** What the body of a template needs of its arguments beyond their
    number: [join] in [_or] and [_union] takes text only, and [len] in
    [_descendant] does not take [None]. *)
Definition operands_fit (k : ExpressionKind) (args : list Argument) : bool :=
  match k with
  | OR | UNION => forallb is_text args
  | DESCENDANT =>
      match args with
      | [_; ArgOther] => false
      | _ => true
      end
  | _ => true
  end.

Definition values_fit (k : ExpressionKind) (vs : list Value) : bool :=
  match k with
  | OR | UNION => forallb is_VStr vs
  | DESCENDANT =>
      match vs with
      | [_; VNone] => false
      | _ => true
      end
  | _ => true
  end.

(** Trees in which every node, nested ones included, has a number of
    arguments its template accepts and operands its template can use. *)
Fixpoint renderable (node : Expression) : bool :=
  match node with
  | Expr k args =>
      signature_accepts k (List.length args)
      && operands_fit k args
      && forallb renderable_arg args
  end
with renderable_arg (argument : Argument) : bool :=
  match argument with
  | ArgExpression e => renderable e
  | ArgList l => forallb renderable_arg l
  | ArgStr _ | ArgLiteral _ | ArgOther => true
  end.

(** The exceptions rendering can end in: [TypeError], or [KeyError] for a
    kind that is not a key of the table. *)
Definition rendering_error (e : Error) : Prop :=
  e = TypeError \/
  exists k, e = KeyError k /\ ~ In k (map fst _RENDER_METHOD_NAMES).

(** The characters of a name, each as a Literal of its own. *)
Definition letters (s : string) : list Argument :=
  map (fun c => ArgLiteral (String c "")) (list_ascii_of_string s).

(* ------------------------------------------------------------------ *)
(** ** Induction over expression trees *)

Section Expression_induction.
Variable P : Expression -> Prop.
Variable Q : Argument -> Prop.
Hypothesis P_Expr : forall k args, Forall Q args -> P (Expr k args).
Hypothesis Q_Expression : forall e, P e -> Q (ArgExpression e).
Hypothesis Q_List : forall l, Forall Q l -> Q (ArgList l).
Hypothesis Q_Str : forall s, Q (ArgStr s).
Hypothesis Q_Literal : forall v, Q (ArgLiteral v).
Hypothesis Q_Other : Q ArgOther.

Fixpoint Expression_tree_ind (e : Expression) : P e :=
  match e with
  | Expr k args =>
      P_Expr k args
        ((fix all (l : list Argument) : Forall Q l :=
            match l with
            | [] => Forall_nil Q
            | a :: l' => Forall_cons a (Argument_tree_ind a) (all l')
            end) args)
  end
with Argument_tree_ind (a : Argument) : Q a :=
  match a with
  | ArgExpression e => Q_Expression e (Expression_tree_ind e)
  | ArgList l =>
      Q_List l
        ((fix all (l : list Argument) : Forall Q l :=
            match l with
            | [] => Forall_nil Q
            | a :: l' => Forall_cons a (Argument_tree_ind a) (all l')
            end) l)
  | ArgStr s => Q_Str s
  | ArgLiteral v => Q_Literal v
  | ArgOther => Q_Other
  end.
End Expression_induction.

(* ------------------------------------------------------------------ *)
(** ** The renderer object is only read *)

Lemma preserves_ret {A} (a : A) : preserves_self (ret a).
Proof. intro self. reflexivity. Qed.

Lemma preserves_raise {A} (e : Error) : preserves_self (@raise A e).
Proof. intro self. reflexivity. Qed.

Lemma preserves_lift {A} (r : Result A) : preserves_self (lift r).
Proof. intro self. reflexivity. Qed.

Lemma preserves_self_exact : preserves_self self_exact.
Proof. intro self. reflexivity. Qed.

Lemma preserves_bind {A B} (m : M A) (f : A -> M B) :
  preserves_self m -> (forall a, preserves_self (f a)) ->
  preserves_self (bind m f).
Proof.
  intros Hm Hf self. unfold bind.
  specialize (Hm self). destruct (m self) as [[a | e] self']; simpl in *; subst.
  - apply Hf.
  - reflexivity.
Qed.

Lemma preserves_if {A} (b : bool) (m1 m2 : M A) :
  preserves_self m1 -> preserves_self m2 ->
  preserves_self (if b then m1 else m2).
Proof. destruct b; auto. Qed.

Lemma preserves_mapM {A B} (f : A -> M B) (l : list A) :
  Forall (fun a => preserves_self (f a)) l -> preserves_self (mapM f l).
Proof.
  induction 1 as [| a l Ha _ IH]; simpl.
  - apply preserves_ret.
  - apply preserves_bind; [exact Ha | intro b].
    apply preserves_bind; [exact IH | intro bs]. apply preserves_ret.
Qed.

Ltac frame :=
  repeat first
    [ apply preserves_ret | apply preserves_raise | apply preserves_lift
    | apply preserves_self_exact
    | apply preserves_bind; [| intro]
    | apply preserves_if ].

Lemma preserves_method (name : string) (method : Method) :
  getattr name = Ok method -> forall args, preserves_self (method args).
Proof.
  unfold getattr.
  repeat (destruct (name =? _);
          [ intros [= <-] [| a [| b [| c args]]];
            cbv [call0 call1 call2 call1_star call_star
                 _anywhere _attribute _child _contains _descendant _equality
                 _inverse _is _normalized_space _one_of _or _previous_sibling
                 _string_function _this_node _union _where];
            frame | ]).
  discriminate.
Qed.


Lemma preserves_bind_lift {A B} (r : Result A) (f : A -> M B) :
  (forall a, r = Ok a -> preserves_self (f a)) ->
  preserves_self (bind (lift r) f).
Proof.
  intros Hf self. unfold bind, lift. destruct r as [a | e]; simpl.
  - now apply Hf.
  - reflexivity.
Qed.

Lemma preserves_render_and_convert :
  (forall node, preserves_self (render node)) /\
  (forall argument, preserves_self (_convert_argument argument)).
Proof.
  assert (step : forall k args,
             Forall (fun a => preserves_self (_convert_argument a)) args ->
             preserves_self (render (Expr k args))).
  { intros k args Hargs. simpl.
    apply preserves_bind; [now apply preserves_mapM | intro vs].
    apply preserves_bind_lift. intros name _.
    apply preserves_bind_lift. intros method Hget.
    now apply (preserves_method name). }
  split; [intro node | intro argument].
  - apply (Expression_tree_ind
             (fun e => preserves_self (render e))
             (fun a => preserves_self (_convert_argument a)));
      intros; try apply step; simpl; frame;
      try (apply preserves_mapM); assumption.
  - apply (Argument_tree_ind
             (fun e => preserves_self (render e))
             (fun a => preserves_self (_convert_argument a)));
      intros; try apply step; simpl; frame;
      try (apply preserves_mapM); assumption.
Qed.

Lemma render_preserves_self (node : Expression) (self : Renderer) :
  snd (render node self) = self.
Proof. apply preserves_render_and_convert. Qed.

Lemma convert_preserves_self (argument : Argument) (self : Renderer) :
  snd (_convert_argument argument self) = self.
Proof. apply preserves_render_and_convert. Qed.

(** Hence a call on any renderer is the call [to_xpath] makes. *)
Lemma render_to_xpath (node : Expression) (self : Renderer) :
  render node self = (to_xpath node (exact self), self).
Proof.
  unfold to_xpath. destruct self as [m]; simpl.
  rewrite (surjective_pairing (render node (mkRenderer m))) at 1.
  now rewrite render_preserves_self.
Qed.

(* ------------------------------------------------------------------ *)
(** ** Rendering as a function of the tree and the mode *)

Lemma convert_resolve (argument : Argument) (self : Renderer) :
  _convert_argument argument self = (resolve argument (exact self), self).
Proof.
  unfold resolve. destruct self as [m]; simpl.
  rewrite (surjective_pairing (_convert_argument argument (mkRenderer m))) at 1.
  now rewrite convert_preserves_self.
Qed.

Lemma mapM_resolve_all (args : list Argument) (self : Renderer) :
  mapM _convert_argument args self = (resolve_all args (exact self), self).
Proof.
  unfold resolve_all. destruct self as [m]; simpl.
  rewrite (surjective_pairing (mapM _convert_argument args (mkRenderer m))) at 1.
  f_equal. apply preserves_mapM, Forall_forall. intros a _ self.
  apply convert_preserves_self.
Qed.

Lemma resolve_all_nil (m : bool) : resolve_all [] m = Ok [].
Proof. reflexivity. Qed.

Lemma resolve_all_cons (a : Argument) (args : list Argument) (m : bool) :
  resolve_all (a :: args) m =
  match resolve a m with
  | Ok v =>
      match resolve_all args m with
      | Ok vs => Ok (v :: vs)
      | Raise e => Raise e
      end
  | Raise e => Raise e
  end.
Proof.
  unfold resolve_all at 1. simpl. unfold bind.
  rewrite convert_resolve. simpl. destruct (resolve a m) as [v | e]; [| easy].
  rewrite mapM_resolve_all. simpl. now destruct (resolve_all args m).
Qed.

Lemma resolve_Expression (e : Expression) (m : bool) :
  resolve (ArgExpression e) m =
  match to_xpath e m with
  | Ok s => Ok (VStr s)
  | Raise err => Raise err
  end.
Proof.
  unfold resolve. simpl. unfold bind. rewrite render_to_xpath. simpl.
  now destruct (to_xpath e m).
Qed.

Lemma resolve_List (l : list Argument) (m : bool) :
  resolve (ArgList l) m =
  match resolve_all l m with
  | Ok vs => Ok (VList vs)
  | Raise err => Raise err
  end.
Proof.
  unfold resolve. simpl. unfold bind. rewrite mapM_resolve_all. simpl.
  now destruct (resolve_all l m).
Qed.

Lemma resolve_Str (s : string) (m : bool) :
  resolve (ArgStr s) m = Ok (VStr ("'" ++ s ++ "'")).
Proof. reflexivity. Qed.

Lemma resolve_Literal (value : string) (m : bool) :
  resolve (ArgLiteral value) m = Ok (VStr value).
Proof. reflexivity. Qed.

Lemma resolve_Other (m : bool) : resolve ArgOther m = Ok VNone.
Proof. reflexivity. Qed.

Lemma to_xpath_Expr (k : ExpressionKind) (args : list Argument) (m : bool) :
  to_xpath (Expr k args) m =
  match resolve_all args m with
  | Ok vs => fst (dispatch k vs (mkRenderer m))
  | Raise e => Raise e
  end.
Proof.
  unfold to_xpath. simpl. unfold bind at 1. rewrite mapM_resolve_all. simpl.
  now destruct (resolve_all args m).
Qed.

Lemma resolve_all_length (args : list Argument) (m : bool) (vs : list Value) :
  resolve_all args m = Ok vs -> List.length vs = List.length args.
Proof.
  revert vs. induction args as [| a args IH]; intros vs.
  - intros [= <-]. reflexivity.
  - rewrite resolve_all_cons. destruct (resolve a m) as [v |]; [| discriminate].
    destruct (resolve_all args m) as [vs' |]; [| discriminate].
    intros [= <-]. simpl. f_equal. now apply IH.
Qed.

Lemma resolve_all_app (l1 l2 : list Argument) (m : bool) (v1 v2 : list Value) :
  resolve_all l1 m = Ok v1 -> resolve_all l2 m = Ok v2 ->
  resolve_all (l1 ++ l2)%list m = Ok (v1 ++ v2)%list.
Proof.
  revert v1. induction l1 as [| a l1 IH]; intros v1.
  - intros [= <-] H2. exact H2.
  - simpl. rewrite !resolve_all_cons.
    destruct (resolve a m) as [v |]; [| discriminate].
    destruct (resolve_all l1 m) as [vs |]; [| discriminate].
    intros [= <-] H2. now rewrite (IH vs eq_refl H2).
Qed.

Lemma resolve_all_Expressions (es : list Expression) (rs : list string) (m : bool) :
  Forall2 (fun e r => to_xpath e m = Ok r) es rs ->
  resolve_all (map ArgExpression es) m = Ok (map VStr rs).
Proof.
  induction 1 as [| e r es rs He _ IH]; [reflexivity |].
  simpl. now rewrite resolve_all_cons, resolve_Expression, He, IH.
Qed.

Lemma resolve_all_Literals (names : list string) (m : bool) :
  resolve_all (map ArgLiteral names) m = Ok (map VStr names).
Proof.
  induction names as [| n names IH]; [reflexivity |].
  simpl. now rewrite resolve_all_cons, resolve_Literal, IH.
Qed.

Lemma all_str_VStr (ss : list string) : all_str (map VStr ss) = Ok ss.
Proof.
  induction ss as [| s ss IH]; [reflexivity |]. simpl. now rewrite IH.
Qed.

Lemma all_str_inv (vs : list Value) (ss : list string) :
  all_str vs = Ok ss -> vs = map VStr ss.
Proof.
  revert ss. induction vs as [| v vs IH]; intros ss.
  - intros [= <-]. reflexivity.
  - simpl. destruct v as [s | |]; try discriminate.
    destruct (all_str vs) as [ss' |]; [| discriminate].
    intros [= <-]. simpl. f_equal. now apply IH.
Qed.

Lemma append_nil_r (s : string) : s ++ "" = s.
Proof. induction s as [| c s IH]; simpl; [| rewrite IH]; reflexivity. Qed.

Lemma append_assoc (s1 s2 s3 : string) : (s1 ++ s2) ++ s3 = s1 ++ s2 ++ s3.
Proof. induction s1 as [| c s1 IH]; simpl; [| rewrite IH]; reflexivity. Qed.

(* ------------------------------------------------------------------ *)
(** ** Renderings of small trees *)

Example render_id_equals_submit :
  to_xpath
    (Expr EQUALITY
       [ArgExpression (Expr ATTR [ArgExpression current; ArgLiteral "id"]);
        ArgStr "submit"]) true
  = Ok "./@id = 'submit'".
Proof. reflexivity. Qed.

Example render_fieldset_by_id :
  to_xpath
    (Expr WHERE
       [ArgExpression
          (Expr DESCENDANT [ArgExpression current; ArgList [ArgLiteral "fieldset"]]);
        ArgExpression
          (Expr EQUALITY
             [ArgExpression (Expr ATTR [ArgExpression current; ArgLiteral "id"]);
              ArgStr "f"])]) false
  = Ok ".//fieldset[./@id = 'f']".
Proof. reflexivity. Qed.

Example render_normalized_text_is :
  to_xpath
    (Expr IS
       [ArgExpression
          (Expr NORMALIZED_SPACE [ArgExpression (Expr STRING [ArgExpression current])]);
        ArgStr "Save"]) false
  = Ok "contains(normalize-space(string(.)), 'Save')".
Proof. reflexivity. Qed.

Example render_list_where_text_expected :
  to_xpath
    (Expr CHILD [ArgExpression current; ArgList [ArgLiteral "a"; ArgOther]]) false
  = Ok "./['a', None]".
Proof. reflexivity. Qed.

(* ------------------------------------------------------------------ *)
(** ** Mode sensitivity *)

Lemma dispatch_mode_irrelevant (k : ExpressionKind) (vs : list Value) (m m' : bool) :
  k <> IS ->
  fst (dispatch k vs (mkRenderer m)) = fst (dispatch k vs (mkRenderer m')).
Proof.
  intro Hk. destruct k; try congruence; cbv [dispatch bind lift]; simpl.
  all: try (destruct vs as [| a [| b [| c vs]]]; reflexivity).
  - destruct vs as [| a [| b [| c vs]]]; try reflexivity.
    cbv [call2 _descendant bind lift].
    destruct (len b) as [n |]; [| reflexivity].
    destruct (n =? 1)%nat; [destruct (getitem0 b); reflexivity |].
    destruct (1 <? n)%nat; [destruct (iter b) |]; reflexivity.
  - cbv [call_star _or bind lift]. destruct (join " or " vs); reflexivity.
Qed.

Lemma mode_irrelevant_without_IS :
  (forall node, mentions_IS node = false ->
                to_xpath node true = to_xpath node false) /\
  (forall argument, mentions_IS_arg argument = false ->
                    resolve argument true = resolve argument false).
Proof.
  assert (lists : forall l,
             Forall (fun a => mentions_IS_arg a = false ->
                              resolve a true = resolve a false) l ->
             existsb mentions_IS_arg l = false ->
             resolve_all l true = resolve_all l false).
  { induction 1 as [| a l Ha _ IH]; [reflexivity |]. simpl.
    intros [Ha' Hl]%orb_false_iff. rewrite !resolve_all_cons.
    now rewrite (Ha Ha'), (IH Hl). }
  assert (step : forall k args,
             Forall (fun a => mentions_IS_arg a = false ->
                              resolve a true = resolve a false) args ->
             mentions_IS (Expr k args) = false ->
             to_xpath (Expr k args) true = to_xpath (Expr k args) false).
  { intros k args Hargs. simpl. intros [Hk Hl]%orb_false_iff.
    rewrite !to_xpath_Expr, (lists args Hargs Hl).
    destruct (resolve_all args false) as [vs |]; [| reflexivity].
    apply dispatch_mode_irrelevant.
    now destruct (ExpressionKind_eq_dec k IS). }
  split; [intro node | intro argument].
  - apply (Expression_tree_ind
             (fun e => mentions_IS e = false ->
                       to_xpath e true = to_xpath e false)
             (fun a => mentions_IS_arg a = false ->
                       resolve a true = resolve a false));
      intros; try (now apply step); try reflexivity.
    + rewrite !resolve_Expression. now rewrite H.
    + rewrite !resolve_List. now rewrite (lists l).
  - apply (Argument_tree_ind
             (fun e => mentions_IS e = false ->
                       to_xpath e true = to_xpath e false)
             (fun a => mentions_IS_arg a = false ->
                       resolve a true = resolve a false));
      intros; try (now apply step); try reflexivity.
    + rewrite !resolve_Expression. now rewrite H.
    + rewrite !resolve_List. now rewrite (lists l).
Qed.

(** C1.  In exact mode a node IS(a, b) renders to the very result of
    rendering EQUALITY(a, b), in approximate mode to that of CONTAINS(a, b);
    the template of every other kind gives the same result whatever the
    mode, and so does a whole tree in which no IS node occurs. *)
Theorem is_follows_mode :
  (forall a b : Argument,
      to_xpath (Expr IS [a; b]) true = to_xpath (Expr EQUALITY [a; b]) true) /\
  (forall a b : Argument,
      to_xpath (Expr IS [a; b]) false = to_xpath (Expr CONTAINS [a; b]) false) /\
  (forall (k : ExpressionKind) (vs : list Value) (m m' : bool),
      k <> IS ->
      fst (dispatch k vs (mkRenderer m)) = fst (dispatch k vs (mkRenderer m'))) /\
  (forall node : Expression,
      mentions_IS node = false -> to_xpath node true = to_xpath node false).
Proof.
  repeat split.
  - intros a b. rewrite !to_xpath_Expr.
    destruct (resolve_all [a; b] true) as [[| va [| vb [| vc vs]]] |];
      reflexivity.
  - intros a b. rewrite !to_xpath_Expr.
    destruct (resolve_all [a; b] false) as [[| va [| vb [| vc vs]]] |];
      reflexivity.
  - apply dispatch_mode_irrelevant.
  - apply mode_irrelevant_without_IS.
Qed.

Lemma is_follows_mode_witness :
  UNION <> IS /\
  fst (dispatch UNION [VStr "a"; VStr "b"] (mkRenderer true)) = Ok "a | b" /\
  fst (dispatch UNION [VStr "a"; VStr "b"] (mkRenderer false)) = Ok "a | b" /\
  mentions_IS (Expr EQUALITY [ArgExpression current; ArgStr "x"]) = false /\
  to_xpath (Expr EQUALITY [ArgExpression current; ArgStr "x"]) true
  = to_xpath (Expr EQUALITY [ArgExpression current; ArgStr "x"]) false.
Proof.
  split; [discriminate |].
  split; [reflexivity |].
  split.
  - rewrite <- (proj1 (proj2 (proj2 is_follows_mode))
                  UNION [VStr "a"; VStr "b"] true false);
      [reflexivity | discriminate].
  - split; [reflexivity |].
    apply (proj2 (proj2 (proj2 is_follows_mode))). reflexivity.
Defined.

(* ------------------------------------------------------------------ *)
(** ** Quoting *)

(** C2.  Argument resolution hands back the text of a Literal as it is
    and puts a plain string between single quotes, leaving every
    character of it, quotes included, untouched.  Hence rendering
    EQUALITY(ATTR(THIS_NODE, Literal "id"), v) gives [./@id = 'v']: the
    quoted value and the bare [@id] both occur in the output. *)
Theorem literal_verbatim_text_quoted :
  forall (v : string) (m : bool),
    resolve (ArgLiteral v) m = Ok (VStr v) /\
    resolve (ArgStr v) m = Ok (VStr ("'" ++ v ++ "'")) /\
    exists text,
      to_xpath
        (Expr EQUALITY
           [ArgExpression (Expr ATTR [ArgExpression current; ArgLiteral "id"]);
            ArgStr v]) m = Ok text /\
      text = "./@id = '" ++ v ++ "'" /\
      occurs_in ("'" ++ v ++ "'") text /\
      occurs_in "@id" text.
Proof.
  intros v m. split; [reflexivity |]. split; [reflexivity |].
  exists ("./@id = '" ++ v ++ "'"). repeat split.
  - exists "./@id = ", "". now rewrite append_nil_r.
  - exists "./", (" = '" ++ v ++ "'"). reflexivity.
Qed.

(* ------------------------------------------------------------------ *)
(** ** Templates over argument lists *)

(** C3.  DESCENDANT(parent, names) renders to the rendered parent followed
    by [//*] for no name, [//n] for the single name [n], and
    [//*[self::n1 | ... | self::nk]], names in argument order, for two or
    more; the three instances on THIS_NODE are as listed. *)
Theorem descendant_by_arity :
  (forall (parent : Expression) (m : bool) (rp : string),
      to_xpath parent m = Ok rp ->
      to_xpath (Expr DESCENDANT [ArgExpression parent; ArgList []]) m
      = Ok (rp ++ "//*") /\
      (forall n,
          to_xpath (Expr DESCENDANT [ArgExpression parent; ArgList [ArgLiteral n]]) m
          = Ok (rp ++ "//" ++ n)) /\
      (forall names,
          1 < List.length names ->
          to_xpath (Expr DESCENDANT
                      [ArgExpression parent; ArgList (map ArgLiteral names)]) m
          = Ok (rp ++ "//*["
                   ++ String.concat " | " (map (fun n => "self::" ++ n) names)
                   ++ "]"))) /\
  (forall m : bool,
      to_xpath (Expr DESCENDANT [ArgExpression current; ArgList []]) m
      = Ok ".//*" /\
      to_xpath (Expr DESCENDANT [ArgExpression current; ArgList [ArgLiteral "button"]]) m
      = Ok ".//button" /\
      to_xpath (Expr DESCENDANT
                  [ArgExpression current; ArgList [ArgLiteral "a"; ArgLiteral "b"]]) m
      = Ok ".//*[self::a | self::b]").
Proof.
  split; [| intro m; repeat split; reflexivity].
  intros parent m rp Hp.
  assert (E : forall names,
             to_xpath (Expr DESCENDANT
                         [ArgExpression parent; ArgList (map ArgLiteral names)]) m
             = fst (_descendant (VStr rp) (VList (map VStr names)) (mkRenderer m))).
  { intro names.
    rewrite to_xpath_Expr, !resolve_all_cons, resolve_Expression, Hp.
    now rewrite resolve_List, resolve_all_Literals. }
  split; [exact (E []) |]. split; [intro n; exact (E [n]) |].
  intros names Hlen. rewrite E.
  destruct names as [| n1 [| n2 names]]; simpl in Hlen; try lia.
  cbv [_descendant bind lift]. simpl. now rewrite map_map.
Qed.

Lemma descendant_by_arity_witness :
  to_xpath (anywhere "form") false = Ok "//form" /\
  1 < List.length ["input"; "select"; "textarea"] /\
  to_xpath (Expr DESCENDANT
              [ArgExpression (anywhere "form");
               ArgList (map ArgLiteral ["input"; "select"; "textarea"])]) false
  = Ok "//form//*[self::input | self::select | self::textarea]".
Proof.
  split; [reflexivity |]. split; [simpl; lia |].
  apply (proj1 descendant_by_arity (anywhere "form") false "//form").
  - reflexivity.
  - simpl. lia.
Defined.

(** C4.  WHERE(n, p1, ..., pk) renders to the rendered base followed by
    each rendered predicate between square brackets, in the order of the
    argument list; for two predicates that is
    [render n ++ "[" ++ render p1 ++ "][" ++ render p2 ++ "]"]. *)
Theorem where_appends_predicates :
  forall (n : Expression) (ps : list Expression) (m : bool)
         (rn : string) (rps : list string),
    to_xpath n m = Ok rn ->
    Forall2 (fun p rp => to_xpath p m = Ok rp) ps rps ->
    to_xpath (Expr WHERE (ArgExpression n :: map ArgExpression ps)) m
    = Ok (rn ++ String.concat "" (map (fun rp => "[" ++ rp ++ "]") rps)) /\
    (forall rp1 rp2, rps = [rp1; rp2] ->
       to_xpath (Expr WHERE (ArgExpression n :: map ArgExpression ps)) m
       = Ok (rn ++ "[" ++ rp1 ++ "][" ++ rp2 ++ "]")).
Proof.
  intros n ps m rn rps Hn Hps.
  assert (E : to_xpath (Expr WHERE (ArgExpression n :: map ArgExpression ps)) m
              = Ok (rn ++ String.concat "" (map (fun rp => "[" ++ rp ++ "]") rps))).
  { rewrite to_xpath_Expr, resolve_all_cons, resolve_Expression, Hn.
    rewrite (resolve_all_Expressions ps rps m Hps).
    cbv [dispatch bind lift]. simpl. unfold _where, ret. simpl.
    now rewrite map_map. }
  split; [exact E |].
  intros rp1 rp2 ->. rewrite E. simpl.
  now rewrite !append_assoc.
Qed.

Lemma where_appends_predicates_witness :
  to_xpath
    (Expr WHERE
       (ArgExpression (Expr DESCENDANT [ArgExpression current; ArgList [ArgLiteral "a"]])
        :: map ArgExpression
             [Expr ATTR [ArgExpression current; ArgLiteral "href"];
              Expr EQUALITY
                [ArgExpression (Expr ATTR [ArgExpression current; ArgLiteral "id"]);
                 ArgStr "x"]])) false
  = Ok (".//a" ++ "[" ++ "./@href" ++ "][" ++ "./@id = 'x'" ++ "]").
Proof.
  refine (proj2 (where_appends_predicates
                   (Expr DESCENDANT [ArgExpression current; ArgList [ArgLiteral "a"]])
                   [Expr ATTR [ArgExpression current; ArgLiteral "href"];
                    Expr EQUALITY
                      [ArgExpression (Expr ATTR [ArgExpression current; ArgLiteral "id"]);
                       ArgStr "x"]]
                   false ".//a" ["./@href"; "./@id = 'x'"] _ _)
                "./@href" "./@id = 'x'" _).
  - reflexivity.
  - repeat constructor.
  - reflexivity.
Defined.

(** C10.  A WHERE node that carries the base expression and no predicate
    renders, in either mode, to exactly what the base alone renders to,
    exceptions included; no bracket is written. *)
Theorem where_without_predicates :
  forall (e : Expression) (m : bool),
    to_xpath (Expr WHERE [ArgExpression e]) m = to_xpath e m.
Proof.
  intros e m. rewrite to_xpath_Expr, resolve_all_cons, resolve_Expression.
  destruct (to_xpath e m) as [s | err]; [| reflexivity].
  cbv [dispatch bind lift]. simpl. now rewrite append_nil_r.
Qed.

(** C6.  ONE_OF(a, v1, ..., vk) renders to the clauses [a = vi], one per
    value in value order, joined by [" or "] and not parenthesised; a plain
    text value appears between single quotes.  OR(e1, ..., ek) renders to
    the operands joined by [" or "] inside one pair of parentheses. *)
Theorem one_of_bare_or_parenthesised :
  (forall (a : Expression) (vs : list Argument) (m : bool)
          (ra : string) (rvs : list string),
      to_xpath a m = Ok ra ->
      Forall2 (fun v rv => resolve v m = Ok (VStr rv)) vs rvs ->
      to_xpath (Expr ONE_OF (ArgExpression a :: vs)) m
      = Ok (String.concat " or " (map (fun rv => ra ++ " = " ++ rv) rvs))) /\
  (forall (a : Expression) (texts : list string) (m : bool) (ra : string),
      to_xpath a m = Ok ra ->
      to_xpath (Expr ONE_OF (ArgExpression a :: map ArgStr texts)) m
      = Ok (String.concat " or "
              (map (fun t => ra ++ " = " ++ "'" ++ t ++ "'") texts))) /\
  (forall (es : list Expression) (m : bool) (res : list string),
      Forall2 (fun e r => to_xpath e m = Ok r) es res ->
      to_xpath (Expr OR (map ArgExpression es)) m
      = Ok ("(" ++ String.concat " or " res ++ ")")).
Proof.
  assert (general : forall a vs m ra rvs,
             to_xpath a m = Ok ra ->
             Forall2 (fun v rv => resolve v m = Ok (VStr rv)) vs rvs ->
             to_xpath (Expr ONE_OF (ArgExpression a :: vs)) m
             = Ok (String.concat " or " (map (fun rv => ra ++ " = " ++ rv) rvs))).
  { intros a vs m ra rvs Ha Hvs.
    assert (R : resolve_all vs m = Ok (map VStr rvs)).
    { induction Hvs as [| v rv vs rvs Hv _ IH]; [reflexivity |].
      simpl. now rewrite resolve_all_cons, Hv, IH. }
    rewrite to_xpath_Expr, resolve_all_cons, resolve_Expression, Ha, R.
    cbv [dispatch bind lift]. simpl. unfold _one_of, ret. simpl.
    now rewrite map_map. }
  split; [exact general |]. split.
  - intros a texts m ra Ha.
    rewrite (general a (map ArgStr texts) m ra
               (map (fun t => "'" ++ t ++ "'") texts) Ha).
    + now rewrite map_map.
    + clear. induction texts; simpl; constructor; auto.
  - intros es m res Hes.
    rewrite to_xpath_Expr, (resolve_all_Expressions es res m Hes).
    cbv [dispatch bind lift]. simpl. unfold call_star, _or, bind, lift, join.
    now rewrite all_str_VStr.
Qed.

Lemma one_of_bare_or_parenthesised_witness :
  to_xpath
    (Expr ONE_OF
       (ArgExpression (Expr ATTR [ArgExpression current; ArgLiteral "type"])
        :: map ArgStr ["submit"; "reset"])) false
  = Ok "./@type = 'submit' or ./@type = 'reset'" /\
  to_xpath
    (Expr ONE_OF
       [ArgExpression (Expr ATTR [ArgExpression current; ArgLiteral "type"]);
        ArgLiteral "a"; ArgStr "b"]) false
  = Ok "./@type = a or ./@type = 'b'" /\
  to_xpath
    (Expr OR
       (map ArgExpression
          [Expr EQUALITY
             [ArgExpression (Expr ATTR [ArgExpression current; ArgLiteral "id"]);
              ArgStr "x"];
           Expr CONTAINS
             [ArgExpression (Expr STRING [ArgExpression current]); ArgStr "x"]]))
    false
  = Ok "(./@id = 'x' or contains(string(.), 'x'))".
Proof.
  destruct one_of_bare_or_parenthesised as (W1 & W2 & W3).
  split; [| split].
  - apply (W2 (Expr ATTR [ArgExpression current; ArgLiteral "type"])
              ["submit"; "reset"] false "./@type").
    reflexivity.
  - apply (W1 (Expr ATTR [ArgExpression current; ArgLiteral "type"])
              [ArgLiteral "a"; ArgStr "b"] false "./@type" ["a"; "'b'"]).
    + reflexivity.
    + repeat constructor.
  - apply (W3 _ false ["./@id = 'x'"; "contains(string(.), 'x')"]).
    repeat constructor.
Defined.

(* ------------------------------------------------------------------ *)
(** ** Union *)

Lemma concat_app (sep : string) (l1 l2 : list string) :
  l1 <> [] -> l2 <> [] ->
  String.concat sep (l1 ++ l2)%list
  = String.concat sep l1 ++ sep ++ String.concat sep l2.
Proof.
  intros H1 H2. induction l1 as [| x l1 IH]; [congruence |].
  destruct l1 as [| y l1].
  - simpl. destruct l2; [congruence | reflexivity].
  - change (String.concat sep ((x :: y :: l1) ++ l2)%list)
      with (x ++ sep ++ String.concat sep ((y :: l1) ++ l2)%list).
    rewrite IH by discriminate.
    change (String.concat sep (x :: y :: l1))
      with (x ++ sep ++ String.concat sep (y :: l1)).
    now rewrite !append_assoc.
Qed.

Lemma union_operands_single (x : Expression) :
  kind x <> UNION -> union_operands x = [ArgExpression x].
Proof. destruct x as [k args]. destruct k; simpl; congruence. Qed.

Lemma to_xpath_UNION (args : list Argument) (m : bool) (ss : list string) :
  resolve_all args m = Ok (map VStr ss) ->
  to_xpath (Expr UNION args) m = Ok (String.concat " | " ss).
Proof.
  intro R. rewrite to_xpath_Expr, R.
  cbv [dispatch bind lift]. simpl. unfold call_star, _union, lift, join.
  now rewrite all_str_VStr.
Qed.

Lemma union_operands_rendered (x : Expression) (m : bool) (rx : string) :
  to_xpath x m = Ok rx -> union_operands x <> [] ->
  exists ss, ss <> [] /\
             resolve_all (union_operands x) m = Ok (map VStr ss) /\
             String.concat " | " ss = rx.
Proof.
  intros Hx Hne.
  assert (single : resolve_all [ArgExpression x] m = Ok (map VStr [rx])).
  { now rewrite resolve_all_cons, resolve_Expression, Hx. }
  destruct x as [k args].
  destruct k;
    try (exists [rx]; split; [discriminate | split; [exact single | reflexivity]]).
  simpl in *. rewrite to_xpath_Expr in Hx.
  destruct (resolve_all args m) as [vs |] eqn:R; [| discriminate].
  cbv [dispatch bind lift] in Hx. simpl in Hx.
  unfold call_star, _union, lift, join in Hx. simpl in Hx.
  destruct (all_str vs) as [ss |] eqn:S; [| discriminate].
  injection Hx as <-. apply all_str_inv in S. subst vs.
  exists ss. split; [| split; reflexivity].
  intros ->. apply resolve_all_length in R. destruct args; [congruence | discriminate].
Qed.

(** C5.  UNION(e1, ..., ek) renders to the rendered operands joined by
    [" | "] in argument order.  The union operator gives one and the same
    flat UNION node for (a + b) + c and a + (b + c); for operands that are
    not themselves unions this node is UNION(a, b, c); and whichever way it
    was built, the union of three operands, none of them a UNION without
    operands, renders to
    [render a ++ " | " ++ render b ++ " | " ++ render c]. *)
Theorem union_joins_and_flattens :
  (forall (es : list Expression) (m : bool) (rs : list string),
      Forall2 (fun e r => to_xpath e m = Ok r) es rs ->
      to_xpath (Expr UNION (map ArgExpression es)) m
      = Ok (String.concat " | " rs)) /\
  (forall a b c : Expression,
      union (union a b) c = union a (union b c)) /\
  (forall a b c : Expression,
      kind a <> UNION -> kind b <> UNION -> kind c <> UNION ->
      union (union a b) c
      = Expr UNION [ArgExpression a; ArgExpression b; ArgExpression c]) /\
  (forall (a b c : Expression) (m : bool) (ra rb rc : string),
      to_xpath a m = Ok ra -> to_xpath b m = Ok rb -> to_xpath c m = Ok rc ->
      a <> Expr UNION [] -> b <> Expr UNION [] -> c <> Expr UNION [] ->
      to_xpath (Expr UNION [ArgExpression a; ArgExpression b; ArgExpression c]) m
      = Ok (ra ++ " | " ++ rb ++ " | " ++ rc) /\
      to_xpath (union (union a b) c) m = Ok (ra ++ " | " ++ rb ++ " | " ++ rc) /\
      to_xpath (union a (union b c)) m = Ok (ra ++ " | " ++ rb ++ " | " ++ rc)).
Proof.
  assert (assoc : forall a b c, union (union a b) c = union a (union b c)).
  { intros a b c. unfold union. simpl. now rewrite app_assoc. }
  assert (nonempty : forall x, x <> Expr UNION [] -> union_operands x <> []).
  { intros [k args] Hx. destruct k; simpl; try discriminate.
    intros ->. now apply Hx. }
  split; [| split; [exact assoc | split]].
  - intros es m rs Hes.
    apply to_xpath_UNION. now apply resolve_all_Expressions.
  - intros a b c Ka Kb Kc. unfold union. simpl.
    now rewrite !union_operands_single.
  - intros a b c m ra rb rc Ha Hb Hc Na Nb Nc.
    assert (flat : to_xpath (union a (union b c)) m
                   = Ok (ra ++ " | " ++ rb ++ " | " ++ rc)).
    { destruct (union_operands_rendered a m ra Ha (nonempty a Na))
        as (sa & Hsa & Ra & <-).
      destruct (union_operands_rendered b m rb Hb (nonempty b Nb))
        as (sb & Hsb & Rb & <-).
      destruct (union_operands_rendered c m rc Hc (nonempty c Nc))
        as (sc & Hsc & Rc & <-).
      unfold union. simpl.
      rewrite (to_xpath_UNION _ m (sa ++ sb ++ sc)%list).
      - rewrite concat_app, concat_app; auto.
        destruct sb; [congruence | discriminate].
      - rewrite !map_app. auto using resolve_all_app. }
    split; [| split; [now rewrite assoc | exact flat]].
    apply (to_xpath_UNION _ m [ra; rb; rc]).
    now rewrite !resolve_all_cons, !resolve_Expression, Ha, Hb, Hc.
Qed.

Lemma union_joins_and_flattens_witness :
  to_xpath (Expr UNION (map ArgExpression [anywhere "a"; current])) false
  = Ok "//a | ." /\
  union (union (anywhere "a") (anywhere "b")) current
  = Expr UNION [ArgExpression (anywhere "a"); ArgExpression (anywhere "b");
                ArgExpression current] /\
  to_xpath (union (union (anywhere "a") (anywhere "b")) current) false
  = Ok "//a | //b | ." /\
  to_xpath (union (anywhere "a") (union (anywhere "b") current)) false
  = Ok "//a | //b | .".
Proof.
  destruct union_joins_and_flattens as (W1 & _ & W3 & W4).
  split; [| split].
  - apply (W1 [anywhere "a"; current] false ["//a"; "."]).
    repeat constructor.
  - apply W3; discriminate.
  - apply (W4 (anywhere "a") (anywhere "b") current false "//a" "//b" ".");
      try reflexivity; discriminate.
Defined.

(* ------------------------------------------------------------------ *)
(** ** Determinism *)

(** C7.  Two calls of [render] in a row on the same renderer and the same
    tree return the same result, text or exception; each call leaves the
    renderer, and with it the mode, as it found it; and the result is the
    one [to_xpath] computes from the tree and the mode flag alone. *)
Theorem render_deterministic :
  forall (T : Expression) (self : Renderer),
    let first := render T self in
    let second := render T (snd first) in
    fst first = fst second /\
    snd first = self /\
    snd second = self /\
    fst first = to_xpath T (exact self).
Proof.
  intros T self first second. subst first second.
  rewrite !render_to_xpath. simpl. auto.
Qed.

(* ------------------------------------------------------------------ *)
(** ** Malformed nodes *)

(** C8 does not hold as stated: an EQUALITY node whose second argument is
    of no supported type is rendered all the same; the argument becomes
    [None] and the template writes it out. *)
Lemma unsupported_argument_rendered :
  supported ArgOther = false /\
  to_xpath (Expr EQUALITY [ArgExpression current; ArgOther]) false
  = Ok ". = None" /\
  ~ raises (to_xpath (Expr EQUALITY [ArgExpression current; ArgOther]) false).
Proof.
  split; [reflexivity |]. split; [reflexivity |]. intros [].
Qed.

(** C8, as the code has it.  A node whose number of arguments the
    signature of its kind's template does not accept fails to render, in
    either mode.  The type of an argument is not checked: an argument of no
    supported type resolves to [None] without an exception. *)
Theorem wrong_argument_count_raises :
  (forall (k : ExpressionKind) (args : list Argument) (m : bool),
      signature_accepts k (List.length args) = false ->
      raises (to_xpath (Expr k args) m)) /\
  (forall m : bool, resolve ArgOther m = Ok VNone).
Proof.
  split; [| reflexivity].
  intros k args m Hsig. rewrite to_xpath_Expr.
  destruct (resolve_all args m) as [vs |] eqn:R; [| exact I].
  apply resolve_all_length in R. rewrite <- R in Hsig. clear R.
  destruct k; simpl in Hsig; try discriminate;
    destruct vs as [| a [| b [| c vs]]]; try discriminate; exact I.
Qed.

Lemma wrong_argument_count_raises_witness :
  signature_accepts EQUALITY 3 = false /\
  raises (to_xpath (Expr EQUALITY
                      [ArgExpression current; ArgStr "x"; ArgStr "y"]) true).
Proof.
  split; [reflexivity |].
  apply (proj1 wrong_argument_count_raises
           EQUALITY [ArgExpression current; ArgStr "x"; ArgStr "y"] true).
  reflexivity.
Defined.

(* ------------------------------------------------------------------ *)
(** ** Unknown kinds *)

(** C9.  A node whose kind is not a key of [_RENDER_METHOD_NAMES] never
    renders to text: once its arguments are resolved the lookup raises
    [KeyError] for that kind, and an exception raised while resolving the
    arguments comes first; no template is used in its place. *)
Theorem unmapped_kind_raises :
  forall (k : ExpressionKind) (args : list Argument) (m : bool),
    ~ In k (map fst _RENDER_METHOD_NAMES) ->
    raises (to_xpath (Expr k args) m) /\
    (forall vs, resolve_all args m = Ok vs ->
                to_xpath (Expr k args) m = Raise (KeyError k)) /\
    (forall e, resolve_all args m = Raise e ->
               to_xpath (Expr k args) m = Raise e).
Proof.
  intros k args m Hk.
  assert (L : dict_getitem _RENDER_METHOD_NAMES k = Raise (KeyError k)).
  { revert Hk. generalize _RENDER_METHOD_NAMES as d.
    induction d as [| [k' v] d IH]; simpl; intro Hk; [reflexivity |].
    destruct (ExpressionKind_eq_dec k k') as [-> | _].
    - exfalso. apply Hk. now left.
    - apply IH. intro H. apply Hk. now right. }
  rewrite to_xpath_Expr. unfold dispatch, bind, lift. rewrite L. simpl.
  destruct (resolve_all args m) as [vs | e]; simpl.
  - split; [exact I |]. split; [reflexivity | discriminate].
  - split; [exact I |]. split; [discriminate |]. now intros e' [= <-].
Qed.

Lemma unmapped_kind_raises_witness :
  ~ In (OTHER_KIND "STARTS_WITH") (map fst _RENDER_METHOD_NAMES) /\
  to_xpath (Expr (OTHER_KIND "STARTS_WITH") [ArgExpression current; ArgStr "x"])
           false
  = Raise (KeyError (OTHER_KIND "STARTS_WITH")).
Proof.
  assert (H : ~ In (OTHER_KIND "STARTS_WITH") (map fst _RENDER_METHOD_NAMES)).
  { simpl. intuition discriminate. }
  split; [exact H |].
  apply (proj1 (proj2 (unmapped_kind_raises
                         (OTHER_KIND "STARTS_WITH")
                         [ArgExpression current; ArgStr "x"] false H))
           [VStr "."; VStr "'x'"]).
  reflexivity.
Defined.

(* ------------------------------------------------------------------ *)
(** ** Argument resolution, element by element *)

Lemma resolve_all_app_raise (pre post : list Argument) (a : Argument)
      (m : bool) (vs : list Value) (e : Error) :
  resolve_all pre m = Ok vs -> resolve a m = Raise e ->
  resolve_all (pre ++ a :: post)%list m = Raise e.
Proof.
  revert vs. induction pre as [| p pre IH]; intros vs Hpre Ha; simpl.
  - now rewrite resolve_all_cons, Ha.
  - rewrite resolve_all_cons in Hpre |- *.
    destruct (resolve p m) as [v |]; [| discriminate].
    destruct (resolve_all pre m) as [vs' |]; [| discriminate].
    now rewrite (IH vs' eq_refl Ha).
Qed.

(** X1.  The arguments of a node are resolved from left to right before
    its kind is looked up: when the arguments before one resolve and that
    one raises, rendering the node raises the same exception, whatever the
    kind of the node and whatever comes after the argument. *)
Theorem first_failing_argument_decides :
  forall (k : ExpressionKind) (pre post : list Argument) (a : Argument)
         (m : bool) (vs : list Value) (e : Error),
    resolve_all pre m = Ok vs ->
    resolve a m = Raise e ->
    to_xpath (Expr k (pre ++ a :: post)%list) m = Raise e.
Proof.
  intros k pre post a m vs e Hpre Ha.
  now rewrite to_xpath_Expr, (resolve_all_app_raise pre post a m vs e Hpre Ha).
Qed.

Lemma first_failing_argument_decides_witness :
  to_xpath
    (Expr (OTHER_KIND "SUBSTRING")
       [ArgExpression current;
        ArgExpression (Expr EQUALITY [ArgStr "a"]);
        ArgExpression (Expr (OTHER_KIND "NAME") [])]) false
  = Raise TypeError.
Proof.
  apply (first_failing_argument_decides
           (OTHER_KIND "SUBSTRING") [ArgExpression current]
           [ArgExpression (Expr (OTHER_KIND "NAME") [])]
           (ArgExpression (Expr EQUALITY [ArgStr "a"])) false [VStr "."]);
    reflexivity.
Defined.

Lemma resolution_is_elementwise_aux (args : list Argument) (m : bool)
      (vs : list Value) :
  resolve_all args m = Ok vs <->
  Forall2 (fun a v => resolve a m = Ok v) args vs.
Proof.
  split.
  - revert vs. induction args as [| a args IH]; intros vs.
    + intros [= <-]. constructor.
    + rewrite resolve_all_cons.
      destruct (resolve a m) as [v |] eqn:Ha; [| discriminate].
      destruct (resolve_all args m) as [vs' |]; [| discriminate].
      intros [= <-]. constructor; [exact Ha | now apply IH].
  - induction 1 as [| a v args vs Ha _ IH]; [reflexivity |].
    now rewrite resolve_all_cons, Ha, IH.
Qed.

(** X2.  An argument list resolves exactly when each argument resolves,
    and then to the list of the resolved values, one per argument and in
    argument order; a list argument becomes the list of its resolved
    elements in the same way. *)
Theorem resolution_is_elementwise :
  forall (args : list Argument) (m : bool) (vs : list Value),
    (resolve_all args m = Ok vs <->
     Forall2 (fun a v => resolve a m = Ok v) args vs) /\
    (resolve (ArgList args) m = Ok (VList vs) <->
     Forall2 (fun a v => resolve a m = Ok v) args vs).
Proof.
  intros args m vs.
  pose proof (resolution_is_elementwise_aux args m vs) as E.
  split; [exact E |].
  rewrite <- E, resolve_List.
  destruct (resolve_all args m) as [vs' |]; split; congruence.
Qed.

(* ------------------------------------------------------------------ *)
(** ** Which trees render *)

Lemma all_str_cases (vs : list Value) :
  if forallb is_VStr vs
  then exists ss, all_str vs = Ok ss
  else all_str vs = Raise TypeError.
Proof.
  induction vs as [| v vs IH]; simpl; [now exists [] |].
  destruct v as [s | l |]; simpl; try reflexivity.
  destruct (forallb is_VStr vs).
  - destruct IH as [ss ->]. now exists (s :: ss).
  - now rewrite IH.
Qed.

Lemma descendant_cases (parent element_names : Value) (self : Renderer) :
  match element_names with
  | VNone => fst (_descendant parent element_names self) = Raise TypeError
  | _ => exists text, fst (_descendant parent element_names self) = Ok text
  end.
Proof.
  destruct element_names as [s | l |]; [| | reflexivity].
  - destruct s as [| c [| d s]]; eexists; reflexivity.
  - destruct l as [| v [| w l]]; eexists; reflexivity.
Qed.

Lemma unmapped_kind (name : string) :
  ~ In (OTHER_KIND name) (map fst _RENDER_METHOD_NAMES).
Proof. simpl. intuition discriminate. Qed.

(** The outcome of a template call: text when the number and the shape of
    the values fit, an exception of the two expected classes otherwise. *)
Lemma dispatch_cases (k : ExpressionKind) (vs : list Value) (self : Renderer) :
  if signature_accepts k (List.length vs) && values_fit k vs
  then exists text, fst (dispatch k vs self) = Ok text
  else exists e, fst (dispatch k vs self) = Raise e /\ rendering_error e.
Proof.
  assert (T : exists e, @Raise string TypeError = Raise e /\ rendering_error e).
  { exists TypeError. split; [reflexivity | now left]. }
  destruct k; cbv [dispatch bind lift]; simpl dict_getitem; cbv iota beta;
    simpl getattr; cbv iota beta.
  all: try (destruct vs as [| a [| b [| c vs]]]; simpl;
            first [exact T | eexists; reflexivity
                  | destruct self as [[|]]; eexists; reflexivity]).
  - (* DESCENDANT *)
    change (getattr "_descendant") with (Ok (call2 _descendant)).
    destruct vs as [| a [| b [| c vs]]]; simpl; try exact T.
    pose proof (descendant_cases a b self) as D.
    destruct b; [exact D | exact D | exact T].
  - (* OR *)
    change (getattr "_or") with (Ok (call_star _or)).
    cbv [signature_accepts values_fit andb call_star _or bind lift join].
    pose proof (all_str_cases vs) as A.
    destruct (forallb is_VStr vs).
    + destruct A as [ss ->]. eexists; reflexivity.
    + rewrite A. exact T.
  - (* UNION *)
    change (getattr "_union") with (Ok (call_star _union)).
    cbv [signature_accepts values_fit andb call_star _union lift join].
    pose proof (all_str_cases vs) as A.
    destruct (forallb is_VStr vs).
    + destruct A as [ss ->]. eexists; reflexivity.
    + rewrite A. exact T.
  - (* a kind outside the table *)
    exists (KeyError (OTHER_KIND name)). split; [reflexivity |].
    right. exists (OTHER_KIND name). split; [reflexivity | apply unmapped_kind].
Qed.

Lemma resolve_shape (a : Argument) (m : bool) (v : Value) :
  resolve a m = Ok v ->
  is_VStr v = is_text a /\
  (v = VNone <-> a = ArgOther).
Proof.
  destruct a as [e | l | s | s |].
  - rewrite resolve_Expression. destruct (to_xpath e m); [| discriminate].
    intros [= <-]. split; [reflexivity | split; discriminate].
  - rewrite resolve_List. destruct (resolve_all l m); [| discriminate].
    intros [= <-]. split; [reflexivity | split; discriminate].
  - intros [= <-]. split; [reflexivity | split; discriminate].
  - intros [= <-]. split; [reflexivity | split; discriminate].
  - intros [= <-]. split; [reflexivity | split; reflexivity].
Qed.

Lemma values_fit_operands_fit (k : ExpressionKind) (args : list Argument)
      (m : bool) (vs : list Value) :
  resolve_all args m = Ok vs -> values_fit k vs = operands_fit k args.
Proof.
  intro R. apply (proj1 (resolution_is_elementwise_aux args m vs)) in R.
  assert (texts : forallb is_VStr vs = forallb is_text args).
  { induction R as [| a v args vs Ha _ IH]; [reflexivity |]. simpl.
    now rewrite (proj1 (resolve_shape a m v Ha)), IH. }
  destruct k; try reflexivity; try exact texts.
  destruct R as [| a va args vs _ R]; [reflexivity |].
  destruct R as [| b vb args vs Hb R]; [reflexivity |].
  destruct R as [| c vc args vs _ _].
  - simpl. destruct (resolve_shape b m vb Hb) as [_ [N1 N2]].
    destruct vb, b; try reflexivity;
      solve [discriminate (N1 eq_refl) | discriminate (N2 eq_refl)].
  - simpl. now destruct vb, b.
Qed.

(** Rendering and resolution succeed on renderable trees and arguments,
    and end in an expected exception on the others. *)
Lemma outcome_by_shape :
  (forall node m,
      match to_xpath node m with
      | Ok _ => renderable node = true
      | Raise e => renderable node = false /\ rendering_error e
      end) /\
  (forall argument m,
      match resolve argument m with
      | Ok _ => renderable_arg argument = true
      | Raise e => renderable_arg argument = false /\ rendering_error e
      end).
Proof.
  pose (P := fun node => forall m,
                 match to_xpath node m with
                 | Ok _ => renderable node = true
                 | Raise e => renderable node = false /\ rendering_error e
                 end).
  pose (Q := fun argument => forall m,
                 match resolve argument m with
                 | Ok _ => renderable_arg argument = true
                 | Raise e => renderable_arg argument = false /\ rendering_error e
                 end).
  assert (lists : forall l, Forall Q l -> forall m,
               match resolve_all l m with
               | Ok _ => forallb renderable_arg l = true
               | Raise e => forallb renderable_arg l = false /\ rendering_error e
               end).
  { induction 1 as [| a l Ha _ IH]; intro m; [reflexivity |].
    rewrite resolve_all_cons. specialize (Ha m). specialize (IH m). simpl.
    destruct (resolve a m) as [v |].
    - rewrite Ha. simpl. now destruct (resolve_all l m).
    - destruct Ha as [-> He]. now split. }
  assert (nodes : forall k args, Forall Q args -> P (Expr k args)).
  { intros k args Hargs m. rewrite to_xpath_Expr.
    specialize (lists args Hargs m). simpl.
    destruct (resolve_all args m) as [vs |] eqn:R.
    - rewrite lists, andb_true_r.
      rewrite <- (values_fit_operands_fit k args m vs R).
      rewrite <- (resolve_all_length args m vs R).
      pose proof (dispatch_cases k vs (mkRenderer m)) as D.
      destruct (signature_accepts k (List.length vs) && values_fit k vs).
      + destruct D as [text ->]. reflexivity.
      + destruct D as [e [-> He]]. now split.
    - destruct lists as [-> He]. now rewrite andb_false_r. }
  assert (lists_arg : forall l, Forall Q l -> Q (ArgList l)).
  { intros l Hl m. rewrite resolve_List. specialize (lists l Hl m). simpl.
    now destruct (resolve_all l m). }
  assert (exprs_arg : forall e, P e -> Q (ArgExpression e)).
  { intros e He m. rewrite resolve_Expression. specialize (He m). simpl.
    now destruct (to_xpath e m). }
  split; [intro node | intro argument].
  - apply (Expression_tree_ind P Q); auto; intros; intro; reflexivity.
  - apply (Argument_tree_ind P Q); auto; intros; intro; reflexivity.
Qed.


(** X4.  Whether rendering a tree raises does not depend on the mode:
    it fails in exact mode exactly when it fails in approximate mode. *)
Theorem failure_is_mode_independent :
  forall node : Expression,
    raises (to_xpath node true) <-> raises (to_xpath node false).
Proof.
  intro node.
  pose proof (proj1 outcome_by_shape node true) as Ht.
  pose proof (proj1 outcome_by_shape node false) as Hf.
  destruct (to_xpath node true), (to_xpath node false); simpl; try tauto.
  - destruct Hf as [Hf _]. congruence.
  - destruct Ht as [Ht _]. congruence.
Qed.



(** X6.  An OR or a UNION node whose arguments all resolve, one of them
    to a list or to [None], raises [TypeError]: [join] takes text only,
    where the templates built on [format] would write the value out. *)
Theorem join_rejects_non_text :
  forall (args : list Argument) (m : bool) (vs : list Value),
    resolve_all args m = Ok vs ->
    forallb is_text args = false ->
    to_xpath (Expr OR args) m = Raise TypeError /\
    to_xpath (Expr UNION args) m = Raise TypeError.
Proof.
  intros args m vs R Htext.
  pose proof (values_fit_operands_fit OR args m vs R) as F. simpl in F.
  rewrite Htext in F. pose proof (all_str_cases vs) as A. rewrite F in A.
  rewrite !to_xpath_Expr, R. cbv [dispatch bind lift]. simpl.
  unfold call_star, _or, _union, bind, lift, join. now rewrite A.
Qed.

Lemma join_rejects_non_text_witness :
  to_xpath (Expr OR [ArgExpression current; ArgList [ArgStr "a"]]) true
  = Raise TypeError /\
  to_xpath (Expr UNION [ArgExpression current; ArgList [ArgStr "a"]]) true
  = Raise TypeError.
Proof.
  apply (join_rejects_non_text
           [ArgExpression current; ArgList [ArgStr "a"]] true
           [VStr "."; VList [VStr "'a'"]]);
    reflexivity.
Defined.

(* ------------------------------------------------------------------ *)
(** ** Degenerate argument lists *)

(** X7.  A DESCENDANT node given a bare Literal where the list of names
    belongs treats the text as a sequence of one-character names: it
    renders as the node given the list of those characters does. *)
Theorem descendant_splits_bare_name :
  forall (parent : Argument) (s : string) (m : bool),
    to_xpath (Expr DESCENDANT [parent; ArgLiteral s]) m
    = to_xpath (Expr DESCENDANT [parent; ArgList (letters s)]) m.
Proof.
  intros parent s m.
  assert (L : resolve (ArgList (letters s)) m
              = Ok (VList (map (fun c => VStr (String c ""))
                               (list_ascii_of_string s)))).
  { rewrite resolve_List. unfold letters.
    rewrite <- (map_map (fun c => String c "") ArgLiteral).
    now rewrite resolve_all_Literals, map_map. }
  rewrite !to_xpath_Expr, !resolve_all_cons, L, resolve_Literal.
  destruct (resolve parent m) as [v |]; [| reflexivity]. simpl.
  destruct s as [| c [| d s]]; reflexivity.
Qed.

(** X8.  A ONE_OF node that carries the expression and no value renders
    to the empty text, dropping the expression; a UNION of a single
    operand renders exactly as the operand does, exceptions included; an OR
    of a single operand is the operand in parentheses; and with no operand
    at all an OR renders to [()] and a UNION to the empty text. *)
Theorem degenerate_variadic_nodes :
  (forall (a : Argument) (m : bool) (v : Value),
      resolve a m = Ok v -> to_xpath (Expr ONE_OF [a]) m = Ok "") /\
  (forall (e : Expression) (m : bool),
      to_xpath (Expr UNION [ArgExpression e]) m = to_xpath e m) /\
  (forall (e : Expression) (m : bool) (re : string),
      to_xpath e m = Ok re ->
      to_xpath (Expr OR [ArgExpression e]) m = Ok ("(" ++ re ++ ")")) /\
  (forall m : bool,
      to_xpath (Expr OR []) m = Ok "()" /\ to_xpath (Expr UNION []) m = Ok "").
Proof.
  split; [| split; [| split]].
  - intros a m v Ha. now rewrite to_xpath_Expr, resolve_all_cons, Ha.
  - intros e m. rewrite to_xpath_Expr, resolve_all_cons, resolve_Expression.
    now destruct (to_xpath e m).
  - intros e m re He.
    now rewrite to_xpath_Expr, resolve_all_cons, resolve_Expression, He.
  - intro m. split; reflexivity.
Qed.

Lemma degenerate_variadic_nodes_witness :
  to_xpath
    (Expr ONE_OF [ArgExpression (Expr ATTR [ArgExpression current; ArgLiteral "type"])])
    false = Ok "" /\
  to_xpath (Expr OR [ArgExpression (Expr INVERSE [ArgExpression current])]) true
  = Ok ("(" ++ "not(.)" ++ ")").
Proof.
  destruct degenerate_variadic_nodes as (W1 & _ & W3 & _).
  split.
  - apply (W1 _ false (VStr "./@type")). reflexivity.
  - apply (W3 _ true "not(.)"). reflexivity.
Defined.

(* ------------------------------------------------------------------ *)
(** ** The fixed templates *)

(** X9.  Path steps.  [anywhere name] renders to [//name]; on a base
    that renders to [rn], ATTR, CHILD and PREVIOUS_SIBLING with a Literal
    name render to [rn/@name], [rn/name] and
    [rn/preceding-sibling::*[1]/self::name]. *)
Theorem path_steps :
  (forall (name : string) (m : bool),
      to_xpath (anywhere name) m = Ok ("//" ++ name)) /\
  (forall (n : Expression) (name : string) (m : bool) (rn : string),
      to_xpath n m = Ok rn ->
      to_xpath (Expr ATTR [ArgExpression n; ArgLiteral name]) m
      = Ok (rn ++ "/@" ++ name) /\
      to_xpath (Expr CHILD [ArgExpression n; ArgLiteral name]) m
      = Ok (rn ++ "/" ++ name) /\
      to_xpath (Expr PREVIOUS_SIBLING [ArgExpression n; ArgLiteral name]) m
      = Ok (rn ++ "/preceding-sibling::*[1]/self::" ++ name)).
Proof.
  split; [reflexivity |].
  intros n name m rn Hn.
  rewrite !to_xpath_Expr, !resolve_all_cons, resolve_Expression, Hn.
  repeat split.
Qed.

Lemma path_steps_witness :
  to_xpath (Expr ATTR [ArgExpression (anywhere "label"); ArgLiteral "for"]) false
  = Ok ("//label" ++ "/@" ++ "for").
Proof.
  apply (proj2 path_steps (anywhere "label") "for" false "//label").
  reflexivity.
Defined.

(** X10.  Tests and functions.  With operands that resolve to the texts
    [ra] and [rb], CONTAINS renders to [contains(ra, rb)] and EQUALITY to
    [ra = rb]; INVERSE, STRING and NORMALIZED_SPACE wrap their operand in
    [not(...)], [string(...)] and [normalize-space(...)]. *)
Theorem tests_and_functions :
  forall (a b : Argument) (m : bool) (ra rb : string),
    resolve a m = Ok (VStr ra) ->
    resolve b m = Ok (VStr rb) ->
    to_xpath (Expr CONTAINS [a; b]) m = Ok ("contains(" ++ ra ++ ", " ++ rb ++ ")") /\
    to_xpath (Expr EQUALITY [a; b]) m = Ok (ra ++ " = " ++ rb) /\
    to_xpath (Expr INVERSE [a]) m = Ok ("not(" ++ ra ++ ")") /\
    to_xpath (Expr STRING [a]) m = Ok ("string(" ++ ra ++ ")") /\
    to_xpath (Expr NORMALIZED_SPACE [a]) m = Ok ("normalize-space(" ++ ra ++ ")").
Proof.
  intros a b m ra rb Ha Hb.
  rewrite !to_xpath_Expr, !resolve_all_cons, Ha, Hb.
  repeat split.
Qed.

Lemma tests_and_functions_witness :
  to_xpath
    (Expr CONTAINS
       [ArgExpression (Expr NORMALIZED_SPACE
                         [ArgExpression (Expr STRING [ArgExpression current])]);
        ArgStr "Save"]) true
  = Ok ("contains(" ++ "normalize-space(string(.))" ++ ", " ++ "'Save'" ++ ")").
Proof.
  apply (tests_and_functions
           (ArgExpression (Expr NORMALIZED_SPACE
                             [ArgExpression (Expr STRING [ArgExpression current])]))
           (ArgStr "Save") true "normalize-space(string(.))" "'Save'");
    reflexivity.
Defined.

(* ------------------------------------------------------------------ *)
(** ** Rendering sees its arguments through their resolved values only *)

Lemma resolve_all_congruence (pre post : list Argument) (a a' : Argument)
      (m : bool) :
  resolve a m = resolve a' m ->
  resolve_all (pre ++ a :: post)%list m = resolve_all (pre ++ a' :: post)%list m.
Proof.
  intro H. induction pre as [| p pre IH]; simpl.
  - now rewrite !resolve_all_cons, H.
  - now rewrite !resolve_all_cons, IH.
Qed.

(** X11.  Two arguments that resolve alike can replace each other at any
    position of any node without changing what the node renders to or
    raises.  So a sub-expression may be exchanged for one with the same
    rendering, and a string [s] for the Literal of [s] between single
    quotes. *)
Theorem rendering_is_compositional :
  (forall (k : ExpressionKind) (pre post : list Argument) (a a' : Argument)
          (m : bool),
      resolve a m = resolve a' m ->
      to_xpath (Expr k (pre ++ a :: post)%list) m
      = to_xpath (Expr k (pre ++ a' :: post)%list) m) /\
  (forall (k : ExpressionKind) (pre post : list Argument) (e e' : Expression)
          (m : bool),
      to_xpath e m = to_xpath e' m ->
      to_xpath (Expr k (pre ++ ArgExpression e :: post)%list) m
      = to_xpath (Expr k (pre ++ ArgExpression e' :: post)%list) m) /\
  (forall (k : ExpressionKind) (pre post : list Argument) (s : string)
          (m : bool),
      to_xpath (Expr k (pre ++ ArgStr s :: post)%list) m
      = to_xpath (Expr k (pre ++ ArgLiteral ("'" ++ s ++ "'") :: post)%list) m).
Proof.
  assert (general : forall k pre post a a' m,
             resolve a m = resolve a' m ->
             to_xpath (Expr k (pre ++ a :: post)%list) m
             = to_xpath (Expr k (pre ++ a' :: post)%list) m).
  { intros k pre post a a' m H.
    now rewrite !to_xpath_Expr, (resolve_all_congruence pre post a a' m H). }
  split; [exact general | split].
  - intros k pre post e e' m H. apply general.
    now rewrite !resolve_Expression, H.
  - intros k pre post s m. now apply general.
Qed.

Lemma rendering_is_compositional_witness :
  to_xpath
    (Expr CHILD ([] ++ ArgExpression (Expr WHERE [ArgExpression current])
                    :: [ArgLiteral "legend"])%list) false
  = to_xpath
      (Expr CHILD ([] ++ ArgExpression current :: [ArgLiteral "legend"])%list) false.
Proof.
  apply (proj1 (proj2 rendering_is_compositional)
           CHILD [] [ArgLiteral "legend"] (Expr WHERE [ArgExpression current])
           current false).
  reflexivity.
Defined.

(** X12.  Text is written between the quotes as it is, so a string with
    a quote in it can take the place of a larger tree: comparing [a] with
    the text [s' or ra = 't], where [ra] is the rendering of [a], renders
    to the very query of ONE_OF(a, s, t). *)
Theorem unescaped_quote_changes_query :
  forall (a : Argument) (s t : string) (m : bool) (ra : string),
    resolve a m = Ok (VStr ra) ->
    to_xpath (Expr EQUALITY [a; ArgStr (s ++ "' or " ++ ra ++ " = '" ++ t)]) m
    = to_xpath (Expr ONE_OF [a; ArgStr s; ArgStr t]) m.
Proof.
  intros a s t m ra Ha.
  rewrite !to_xpath_Expr, !resolve_all_cons, Ha, !resolve_Str.
  cbv [dispatch bind lift]. simpl. unfold _equality, _one_of, ret. simpl.
  f_equal. repeat (rewrite append_assoc; simpl). reflexivity.
Qed.

Lemma unescaped_quote_changes_query_witness :
  to_xpath
    (Expr EQUALITY
       [ArgExpression (Expr ATTR [ArgExpression current; ArgLiteral "id"]);
        ArgStr ("x" ++ "' or " ++ "./@id" ++ " = '" ++ "y")]) true
  = to_xpath
      (Expr ONE_OF
         [ArgExpression (Expr ATTR [ArgExpression current; ArgLiteral "id"]);
          ArgStr "x"; ArgStr "y"]) true.
Proof.
  apply (unescaped_quote_changes_query
           (ArgExpression (Expr ATTR [ArgExpression current; ArgLiteral "id"]))
           "x" "y" true "./@id").
  reflexivity.
Defined.

(** X13.  The names of a DESCENDANT need not be Literals: with a parent
    that resolves to the text [rp] and list elements that resolve to the
    texts [rs], the node renders to [rp//*] for no element, [rp//r] for
    one, and [rp//*[self::r1 | ... | self::rk]] for more, so that a nested
    expression or a quoted string is written where a name would be. *)
Theorem descendant_over_resolved_elements :
  forall (parent : Argument) (elements : list Argument) (m : bool)
         (rp : string) (rs : list string),
    resolve parent m = Ok (VStr rp) ->
    Forall2 (fun a r => resolve a m = Ok (VStr r)) elements rs ->
    to_xpath (Expr DESCENDANT [parent; ArgList elements]) m
    = Ok (rp ++ match rs with
                | [] => "//*"
                | [r] => "//" ++ r
                | _ => "//*["
                         ++ String.concat " | " (map (fun r => "self::" ++ r) rs)
                         ++ "]"
                end).
Proof.
  intros parent elements m rp rs Hp Hes.
  assert (R : resolve_all elements m = Ok (map VStr rs)).
  { induction Hes as [| a r elements rs Ha _ IH]; [reflexivity |].
    simpl. now rewrite resolve_all_cons, Ha, IH. }
  rewrite to_xpath_Expr, !resolve_all_cons, Hp, resolve_List, R. simpl.
  destruct rs as [| r1 [| r2 rs]]; try reflexivity.
  cbv [dispatch bind lift]. simpl. now rewrite map_map.
Qed.

Lemma descendant_over_resolved_elements_witness :
  to_xpath
    (Expr DESCENDANT
       [ArgExpression (Expr DESCENDANT [ArgExpression current; ArgList [ArgLiteral "label"]]);
        ArgList [ArgExpression
                   (Expr DESCENDANT [ArgExpression current; ArgList [ArgLiteral "select"]])]])
    false
  = Ok (".//label" ++ "//" ++ ".//select").
Proof.
  apply (descendant_over_resolved_elements
           (ArgExpression (Expr DESCENDANT [ArgExpression current; ArgList [ArgLiteral "label"]]))
           [ArgExpression
              (Expr DESCENDANT [ArgExpression current; ArgList [ArgLiteral "select"]])]
           false ".//label" [".//select"]).
  - reflexivity.
  - repeat constructor.
Defined.
